(** * fluent/client/ws_client.go: the websocket client and its lifecycle

    A shallow embedding of [ws_client.go] of fluent-forward-go, and the
    properties of its connection lifecycle.

    How the Go code is read:
    - a Go method with a pointer receiver becomes a computation in the
      monad [Go], which threads the [Machine] (the receiver [*WSClient], the
      objects reachable from it through pointers, and the trace of calls
      made to collaborators) and stops at the first run-time panic, keeping
      the machine as the panic found it;
    - [*IAMAuthInfo] and [*DefaultWSConnectionFactory] are addresses into
      two heaps, so that a credential refreshed through one alias is seen
      through the others and a factory has an identity;
    - a nil interface, nil pointer or nil map is [None];
    - packages the file imports (gorilla/websocket, net/http, msgp, and the
      sibling packages ws and ws/ext) are [Collaborators]: each call is
      answered from the trace so far and recorded in it.  Collaborators
      do not reach back into the client, and they return, with one
      exception: [msgp.Encode] on the nil writer may panic (it does when
      it flushes a message that has bytes);
    - the embedding is sequential: [sync.RWMutex] is taken and released
      within [IAMToken] and [SetIAMToken], and therefore is not part of the
      machine. *)

From stdpp Require Import base option list strings gmap.

Local Open Scope string_scope.
Local Open Scope list_scope.

(** ** Values exchanged with the collaborators *)

(** [ext.Conn]: the raw websocket connection an [ext.Conn] interface value
    stands for (the nil interface is one of its values). *)
Inductive Conn := conn_handle (id : nat).

(** A non-nil [ws.Connection]; the interface value itself is an
    [option Connection]. *)
Inductive Connection := connection_handle (id : nat).

(** [ws.ConnectionOptions], passed through untouched. *)
Inductive ConnectionOptions := connection_options (id : nat).

(** A [msgp.Encodable] message. *)
Inductive Encodable := encodable (id : nat).

(** Modelled from the spec: [ServerAddress] is declared in another file of
    the package; the spec gives it as an immutable value resolvable to a
    connection target string, which is all [ws_client.go] uses of it
    (through [String()]). *)
Inductive ServerAddress := server_address (target : string).

Definition ServerAddress_String (sa : ServerAddress) : string :=
  match sa with server_address target => target end.

(** An error value made by a collaborator. *)
Inductive ForeignError := foreign_error (code : nat).

(** Go [error] values that can reach a caller of this file: the ones the
    file allocates itself with [errors.New], and the ones a collaborator
    handed over.  [errors.New] returns a fresh pointer, so no collaborator
    can return an error equal to one made here; the two constructors keep
    them apart.  [None : option error] is the nil error. *)
Inductive error :=
| errors_New (text : string)
| foreign (e : ForeignError).

(** [http.Header] is [map[string][]string]; the nil map is [None]. *)
Definition Header : Type := option (gmap string (list string)).

Definition AuthorizationHeader : string := "Authorization".

(** Addresses of heap objects. *)
Definition loc : Type := nat.

(** ** The structs of the file *)

(** [WSSession]: the embedded [ServerAddress] and the [Connection]
    interface value. *)
Record WSSession := {
  Session_ServerAddress : ServerAddress;
  Session_Connection : option Connection
}.

(** [DefaultWSConnectionFactory]: the embedded [ServerAddress] and the
    [*IAMAuthInfo] pointer. *)
Record DefaultWSConnectionFactory := {
  Factory_ServerAddress : ServerAddress;
  Factory_AuthInfo : option loc
}.

(** A non-nil [WSConnectionFactory] interface value: a pointer to a
    [DefaultWSConnectionFactory], or an implementation supplied by the
    caller (a test double, another transport). *)
Inductive WSConnectionFactory :=
| default_factory (p : loc)
| supplied_factory (id : nat).

Record WSClient := {
  ConnectionFactory : option WSConnectionFactory;
  Client_ServerAddress : ServerAddress;
  AuthInfo : option loc;
  ConnectionOptions_ : ConnectionOptions;
  Session : option WSSession
}.

(** ** Calls that leave the file *)

Inductive Event :=
| EvDial (urlStr : string) (requestHeader : Header)
| EvFactoryNew (id : nat)
| EvNewConnection (conn : Conn) (opts : ConnectionOptions)
| EvClose (k : Connection)
| EvListen (k : Connection)
| EvEncode (w : option Connection) (e : Encodable).

(** How a call ends: it returns, or the goroutine panics. *)
Inductive Outcome (A : Type) :=
| Returns (a : A)
| Panics (why : string).
Arguments Returns {A} a.
Arguments Panics {A} why.

(** What the collaborators answer, given the calls made so far. *)
Record Collaborators := {
  (* websocket.Dialer.Dial, response dropped *)
  dialer_Dial : list Event -> string -> Header -> Conn * option ForeignError;
  (* New() of a factory supplied by the caller *)
  supplied_New : list Event -> nat -> Conn * option ForeignError;
  (* ws.NewConnection *)
  ws_NewConnection :
    list Event -> Conn -> ConnectionOptions ->
    option Connection * option ForeignError;
  (* Close() and Listen() of a ws.Connection; Listen is taken at its return *)
  connection_Close : list Event -> Connection -> option ForeignError;
  connection_Listen : list Event -> Connection -> option ForeignError;
  (* msgp.Encode onto a ws.Connection *)
  msgp_Encode :
    list Event -> option Connection -> Encodable -> option ForeignError;
  (* msgp.Encode onto the nil writer: it returns, or panics in the flush *)
  msgp_Encode_nil : list Event -> Encodable -> Outcome (option ForeignError)
}.

(** ** The machine and the monad *)

Record Machine := {
  client : WSClient;
  (* the [token] field of each allocated IAMAuthInfo *)
  authInfos : list string;
  (* each allocated DefaultWSConnectionFactory *)
  factories : list DefaultWSConnectionFactory;
  trace : list Event
}.

Definition Go (A : Type) : Type := Machine -> Outcome A * Machine.

#[global] Instance Go_ret : MRet Go := fun A a m => (Returns a, m).

#[global] Instance Go_bind : MBind Go := fun A B k x m =>
  match x m with
  | (Returns a, m') => k a m'
  | (Panics why, m') => (Panics why, m')
  end.

Definition panic {A} (why : string) : Go A := fun m => (Panics why, m).

Definition nil_dereference : string :=
  "invalid memory address or nil pointer dereference".
Definition nil_map_assignment : string := "assignment to entry in nil map".

Definition with_client (f : WSClient -> WSClient) (m : Machine) : Machine :=
  {| client := f (client m); authInfos := authInfos m;
     factories := factories m; trace := trace m |}.

Definition load_client : Go WSClient := fun m => (Returns (client m), m).

Definition store_ConnectionFactory (f : option WSConnectionFactory) : Go unit :=
  fun m =>
    (Returns tt,
     with_client (fun c =>
       {| ConnectionFactory := f;
          Client_ServerAddress := Client_ServerAddress c;
          AuthInfo := AuthInfo c;
          ConnectionOptions_ := ConnectionOptions_ c;
          Session := Session c |}) m).

Definition store_Session (s : option WSSession) : Go unit :=
  fun m =>
    (Returns tt,
     with_client (fun c =>
       {| ConnectionFactory := ConnectionFactory c;
          Client_ServerAddress := Client_ServerAddress c;
          AuthInfo := AuthInfo c;
          ConnectionOptions_ := ConnectionOptions_ c;
          Session := s |}) m).

(** A call to a collaborator: answered from the trace, then recorded. *)
Definition call {A} (answer : list Event -> A) (ev : Event) : Go A :=
  fun m =>
    (Returns (answer (trace m)),
     {| client := client m; authInfos := authInfos m;
        factories := factories m; trace := trace m ++ [ev] |}).

(** ** IAMAuthInfo *)

(** [NewIAMAuthInfo]: a new object, its address returned. *)
Definition NewIAMAuthInfo (token : string) : Go loc :=
  fun m =>
    (Returns (length (authInfos m)),
     {| client := client m; authInfos := authInfos m ++ [token];
        factories := factories m; trace := trace m |}).

(** [IAMToken]: the token field, read under the read lock.  Go has no
    dangling pointer; the address of no object is treated like nil. *)
Definition IAMToken (ai : loc) : Go string :=
  fun m =>
    match authInfos m !! ai with
    | Some token => (Returns token, m)
    | None => (Panics nil_dereference, m)
    end.

(** [SetIAMToken]: the token field, written under the write lock. *)
Definition SetIAMToken (ai : loc) (token : string) : Go unit :=
  fun m =>
    match authInfos m !! ai with
    | Some _ =>
        (Returns tt,
         {| client := client m; authInfos := <[ai := token]> (authInfos m);
            factories := factories m; trace := trace m |})
    | None => (Panics nil_dereference, m)
    end.

(** ** http.Header *)

(** [Header.Add]: [h[key] = append(h[key], value)]; an assignment to an
    entry of the nil map panics.  [AuthorizationHeader], the only key of
    this file, is already in canonical MIME form. *)
Definition Header_Add (h : Header) (key value : string) : Go Header :=
  match h with
  | None => panic nil_map_assignment
  | Some entries =>
      mret (Some (<[key := default [] (entries !! key) ++ [value]]> entries))
  end.

Section Client.

Context (world : Collaborators).

(** ** DefaultWSConnectionFactory *)

(** [DefaultWSConnectionFactory.New], on the factory at address [wcf].
    [var header http.Header] is the zero value of a map type: nil. *)
Definition DefaultWSConnectionFactory_New (wcf : loc) : Go (Conn * option error) :=
  fun m =>
    match factories m !! wcf with
    | None => (Panics nil_dereference, m)
    | Some this =>
        (let header : Header := None in
         header ←
           match Factory_AuthInfo this with
           | Some ai =>
               token ← IAMToken ai;
               if bool_decide (0 < String.length token) then
                 token ← IAMToken ai;
                 Header_Add header AuthorizationHeader token
               else mret header
           | None => mret header
           end;
         '(conn, err) ←
           call (fun tr =>
                   dialer_Dial world tr
                     (ServerAddress_String (Factory_ServerAddress this)) header)
                (EvDial (ServerAddress_String (Factory_ServerAddress this)) header);
         mret (conn, foreign <$> err)) m
    end.

(** ** WSConnectionFactory *)

(** [New()] on a [WSConnectionFactory] interface value: dispatch on the
    implementation it holds. *)
Definition WSConnectionFactory_New (f : option WSConnectionFactory)
  : Go (Conn * option error) :=
  match f with
  | None => panic nil_dereference
  | Some (default_factory p) => DefaultWSConnectionFactory_New p
  | Some (supplied_factory id) =>
      '(conn, err) ← call (fun tr => supplied_New world tr id) (EvFactoryNew id);
      mret (conn, foreign <$> err)
  end.

(** [&DefaultWSConnectionFactory{...}]: a new object, its address
    returned. *)
Definition new_DefaultWSConnectionFactory (v : DefaultWSConnectionFactory)
  : Go loc :=
  fun m =>
    (Returns (length (factories m)),
     {| client := client m; authInfos := authInfos m;
        factories := factories m ++ [v]; trace := trace m |}).

(** ** WSClient *)

(** [Connect]. *)
Definition Connect : Go (option error) :=
  c ← load_client;
  match ConnectionFactory c with
  | None =>
      p ← new_DefaultWSConnectionFactory
            {| Factory_ServerAddress := Client_ServerAddress c;
               Factory_AuthInfo := AuthInfo c |};
      store_ConnectionFactory (Some (default_factory p))
  | Some _ => mret tt
  end;;
  c ← load_client;
  '(conn, err) ← WSConnectionFactory_New (ConnectionFactory c);
  match err with
  | Some e => mret (Some e)
  | None =>
      c ← load_client;
      '(connection, err) ←
        call (fun tr => ws_NewConnection world tr conn (ConnectionOptions_ c))
             (EvNewConnection conn (ConnectionOptions_ c));
      match err with
      | Some e => mret (Some (foreign e))
      | None =>
          c ← load_client;
          store_Session
            (Some {| Session_ServerAddress := Client_ServerAddress c;
                     Session_Connection := connection |});;
          mret None
      end
  end.

(** [Disconnect].  A method call on the nil interface is a nil
    dereference. *)
Definition Disconnect : Go (option error) :=
  c ← load_client;
  err ←
    match Session c with
    | Some session =>
        match Session_Connection session with
        | Some k =>
            err ← call (fun tr => connection_Close world tr k) (EvClose k);
            mret (foreign <$> err)
        | None => panic nil_dereference
        end
    | None => mret None
    end;
  store_Session None;;
  mret err.

Definition Reconnect : Go (option error) :=
  err ← Disconnect;
  match err with
  | None => Connect
  | Some _ => mret err
  end.

Definition no_active_session : error := errors_New "No active session".

(** [msgp.Encode(w, e)]: recorded, and answered by the encoder; with the
    nil interface as writer the answer may be a panic. *)
Definition Encode (w : option Connection) (e : Encodable)
  : Go (option ForeignError) :=
  fun m =>
    (match w with
     | Some _ => Returns (msgp_Encode world (trace m) w e)
     | None => msgp_Encode_nil world (trace m) e
     end,
     {| client := client m; authInfos := authInfos m;
        factories := factories m; trace := trace m ++ [EvEncode w e] |}).

Definition SendMessage (e : Encodable) : Go (option error) :=
  c ← load_client;
  match Session c with
  | None => mret (Some no_active_session)
  | Some session =>
      err ← Encode (Session_Connection session) e;
      mret (foreign <$> err)
  end.

Definition Listen : Go (option error) :=
  c ← load_client;
  match Session c with
  | None => mret (Some no_active_session)
  | Some session =>
      match Session_Connection session with
      | None => mret (Some no_active_session)
      | Some k =>
          err ← call (fun tr => connection_Listen world tr k) (EvListen k);
          mret (foreign <$> err)
      end
  end.

End Client.


(** ** Machines met while a method runs *)

(** The machine once a collaborator call [ev] is recorded. *)
Definition recorded (ev : Event) (m : Machine) : Machine :=
  {| client := client m; authInfos := authInfos m;
     factories := factories m; trace := trace m ++ [ev] |}.

(** The machine once the client's Session field is assigned. *)
Definition with_Session (s : option WSSession) (m : Machine) : Machine :=
  with_client (fun c =>
    {| ConnectionFactory := ConnectionFactory c;
       Client_ServerAddress := Client_ServerAddress c;
       AuthInfo := AuthInfo c;
       ConnectionOptions_ := ConnectionOptions_ c;
       Session := s |}) m.

(** The default factory [Connect] builds for the client of [m]. *)
Definition default_for (m : Machine) : DefaultWSConnectionFactory :=
  {| Factory_ServerAddress := Client_ServerAddress (client m);
     Factory_AuthInfo := AuthInfo (client m) |}.

(** The machine past the nil check of [Connect] (lines 94 to 99). *)
Definition factory_ensured (m : Machine) : Machine :=
  match ConnectionFactory (client m) with
  | Some _ => m
  | None =>
      with_client (fun c =>
        {| ConnectionFactory := Some (default_factory (length (factories m)));
           Client_ServerAddress := Client_ServerAddress c;
           AuthInfo := AuthInfo c;
           ConnectionOptions_ := ConnectionOptions_ c;
           Session := Session c |})
        {| client := client m; authInfos := authInfos m;
           factories := factories m ++ [default_for m]; trace := trace m |}
  end.

(** The factory [Connect] calls [New] on. *)
Definition factory_in_use (m : Machine) : WSConnectionFactory :=
  match ConnectionFactory (client m) with
  | Some f => f
  | None => default_factory (length (factories m))
  end.

(** The setup of a machine: everything of the client but its Session, and
    the default factories built so far.  [same_setup m m'] says [m'] has
    the setup of [m]. *)
Definition same_setup (m m' : Machine) : Prop :=
  ConnectionFactory (client m') = ConnectionFactory (client m) /\
  Client_ServerAddress (client m') = Client_ServerAddress (client m) /\
  AuthInfo (client m') = AuthInfo (client m) /\
  ConnectionOptions_ (client m') = ConnectionOptions_ (client m) /\
  factories m' = factories m.

Section Fragments.

Context (world : Collaborators).

(** [Connect] from line 102 on, given what [New] returned. *)
Definition Connect_wrap (r : Conn * option error) : Go (option error) :=
  let '(conn, err) := r in
  match err with
  | Some e => mret (Some e)
  | None =>
      c ← load_client;
      '(connection, err) ←
        call (fun tr => ws_NewConnection world tr conn (ConnectionOptions_ c))
             (EvNewConnection conn (ConnectionOptions_ c));
      match err with
      | Some e => mret (Some (foreign e))
      | None =>
          c ← load_client;
          store_Session
            (Some {| Session_ServerAddress := Client_ServerAddress c;
                     Session_Connection := connection |});;
          mret None
      end
  end.

(** [Reconnect] in the words of the specification: Disconnect; if and only
    if it succeeded, Connect; otherwise its outcome, as it is. *)
Definition Reconnect_spec : Go (option error) :=
  fun m =>
    match Disconnect world m with
    | (Returns None, m') => Connect world m'
    | failed => failed
    end.

(** The calls a program can make on one client and its credential. *)
Inductive Op :=
| OpConnect
| OpDisconnect
| OpReconnect
| OpSendMessage (e : Encodable)
| OpListen
| OpSetIAMToken (ai : loc) (token : string).

(** The machine after one call, whatever its outcome (a panic is
    recovered by the caller). *)
Definition after (o : Op) (m : Machine) : Machine :=
  match o with
  | OpConnect => (Connect world m).2
  | OpDisconnect => (Disconnect world m).2
  | OpReconnect => (Reconnect world m).2
  | OpSendMessage e => (SendMessage world e m).2
  | OpListen => (Listen world m).2
  | OpSetIAMToken ai token => (SetIAMToken ai token m).2
  end.

Definition after_all (ops : list Op) (m : Machine) : Machine :=
  foldl (fun m o => after o m) m ops.

End Fragments.

(** ** Notions for the properties beyond the lifecycle claims *)

(** The collaborator calls [Connect] has in its text: [New] of the factory
    (a dial, for the default factory) and [ws.NewConnection]. *)
Definition connect_call (ev : Event) : bool :=
  match ev with
  | EvDial _ _ | EvFactoryNew _ | EvNewConnection _ _ => true
  | EvClose _ | EvListen _ | EvEncode _ _ => false
  end.

(** A call on the client itself; [SetIAMToken] is made by whoever refreshes
    the credential. *)
Definition client_call (o : Op) : bool :=
  match o with
  | OpSetIAMToken _ _ => false
  | _ => true
  end.

(** What identifies a client: its address, its AuthInfo pointer and its
    options. *)
Definition same_identity (m m' : Machine) : Prop :=
  Client_ServerAddress (client m') = Client_ServerAddress (client m) /\
  AuthInfo (client m') = AuthInfo (client m) /\
  ConnectionOptions_ (client m') = ConnectionOptions_ (client m).

(** The Session, if there is one, carries the address of the client. *)
Definition session_at_client_address (m : Machine) : Prop :=
  forall session,
    Session (client m) = Some session ->
    Session_ServerAddress session = Client_ServerAddress (client m).

(** The token [New] of the factory in use reads when [Connect] is called
    on [m]: none for a supplied factory or a default factory without
    AuthInfo. *)
Definition credential_in_use (m : Machine) : option string :=
  match factory_in_use m with
  | supplied_factory _ => None
  | default_factory p =>
      match factories (factory_ensured m) !! p with
      | Some this =>
          match Factory_AuthInfo this with
          | Some ai => authInfos m !! ai
          | None => None
          end
      | None => None
      end
  end.

(** What a call does to the Session: it leaves it, clears it, or stores a
    new one at the address of the client. *)
Definition Session_step (m m' : Machine) : Prop :=
  Session (client m') = Session (client m) \/
  Session (client m') = None \/
  exists connection,
    Session (client m') =
      Some {| Session_ServerAddress := Client_ServerAddress (client m);
              Session_Connection := connection |}.

(** The machine with other tokens in its AuthInfo objects. *)
Definition with_authInfos (tokens : list string) (m : Machine) : Machine :=
  {| client := client m; authInfos := tokens;
     factories := factories m; trace := trace m |}.

(** ** Concrete clients and collaborators *)

Module Sample.

(** Collaborators that always succeed. *)
Definition reachable : Collaborators :=
  {| dialer_Dial := fun _ _ _ => (conn_handle 1, None);
     supplied_New := fun _ _ => (conn_handle 2, None);
     ws_NewConnection := fun _ _ _ => (Some (connection_handle 3), None);
     connection_Close := fun _ _ => None;
     connection_Listen := fun _ _ => None;
     msgp_Encode := fun _ _ _ => None;
     msgp_Encode_nil := fun _ _ => Panics nil_dereference |}.

(** Collaborators whose dial and supplied factories fail, and whose
    connections fail to close. *)
Definition unreachable : Collaborators :=
  {| dialer_Dial := fun _ _ _ => (conn_handle 0, Some (foreign_error 7));
     supplied_New := fun _ _ => (conn_handle 0, Some (foreign_error 7));
     ws_NewConnection := fun _ _ _ => (Some (connection_handle 3), None);
     connection_Close := fun _ _ => Some (foreign_error 9);
     connection_Listen := fun _ _ => None;
     msgp_Encode := fun _ _ _ => None;
     msgp_Encode_nil := fun _ _ => Panics nil_dereference |}.

Definition address : ServerAddress := server_address "wss://example.test/ingest".

Definition client_of (f : option WSConnectionFactory) (ai : option loc)
    (s : option WSSession) : WSClient :=
  {| ConnectionFactory := f; Client_ServerAddress := address;
     AuthInfo := ai; ConnectionOptions_ := connection_options 0;
     Session := s |}.

Definition machine_of (c : WSClient) (tokens : list string) : Machine :=
  {| client := c; authInfos := tokens; factories := []; trace := [] |}.

Definition live_session : WSSession :=
  {| Session_ServerAddress := address;
     Session_Connection := Some (connection_handle 5) |}.

Definition hollow_session : WSSession :=
  {| Session_ServerAddress := address; Session_Connection := None |}.

(** A fresh client with a credential and no factory of its own. *)
Definition with_token : Machine :=
  machine_of (client_of None (Some 0) None) ["secret"].

(** A fresh client without credential. *)
Definition anonymous : Machine :=
  machine_of (client_of None None None) [].

(** A connected client whose factory is a test double. *)
Definition connected : Machine :=
  machine_of (client_of (Some (supplied_factory 4)) None (Some live_session)) [].

(** A client holding a session without connection. *)
Definition hollow : Machine :=
  machine_of (client_of (Some (supplied_factory 4)) None (Some hollow_session)) [].

(** A default factory built by hand, with a credential. *)
Definition own_default : Machine :=
  {| client := client_of (Some (default_factory 0)) (Some 0) None;
     authInfos := ["secret"];
     factories := [{| Factory_ServerAddress := address;
                      Factory_AuthInfo := Some 0 |}];
     trace := [] |}.

End Sample.

Module Scenario.

(** A fresh client whose credential is still empty. *)
Definition empty_token : Machine :=
  Sample.machine_of (Sample.client_of None (Some 0) None) [""].

(** A program on one client: connect, send, reconnect, listen, leave. *)
Definition session_of_work : list Op :=
  [OpConnect; OpSendMessage (encodable 1); OpReconnect; OpListen; OpDisconnect].

End Scenario.

(** * Properties *)

(** Unfolding of the monad. *)
Ltac go_unfold :=
  unfold mbind, Go_bind, mret, Go_ret, panic, call, load_client,
    store_Session, store_ConnectionFactory, new_DefaultWSConnectionFactory.

Section Properties.

Context (world : Collaborators).

Implicit Types (m : Machine).

(** ** IAMAuthInfo, one caller at a time *)

Lemma IAMToken_after_SetIAMToken m ai old token :
  authInfos m !! ai = Some old ->
  exists m', SetIAMToken ai token m = (Returns tt, m') /\
             IAMToken ai m' = (Returns token, m').
Proof.
  intros Hold. unfold SetIAMToken, IAMToken. rewrite Hold.
  eexists; split; [reflexivity|]. simpl.
  rewrite list_lookup_insert_eq; [reflexivity|].
  by apply lookup_lt_Some in Hold.
Qed.

Lemma IAMToken_after_NewIAMAuthInfo m token :
  exists ai m', NewIAMAuthInfo token m = (Returns ai, m') /\
                IAMToken ai m' = (Returns token, m').
Proof.
  unfold NewIAMAuthInfo, IAMToken. do 2 eexists; split; [reflexivity|].
  simpl. rewrite lookup_app_r by lia. by rewrite Nat.sub_diag.
Qed.

(** ** DefaultWSConnectionFactory.New *)

(** Without credential the dial is made with the nil header, and its
    result is handed back. *)
Lemma New_without_credential m wcf this :
  factories m !! wcf = Some this ->
  (Factory_AuthInfo this = None \/
   exists ai, Factory_AuthInfo this = Some ai /\ authInfos m !! ai = Some "") ->
  let url := ServerAddress_String (Factory_ServerAddress this) in
  DefaultWSConnectionFactory_New world wcf m =
    (Returns ((dialer_Dial world (trace m) url None).1,
              foreign <$> (dialer_Dial world (trace m) url None).2),
     recorded (EvDial url None) m).
Proof.
  intros Hthis Hai url. unfold DefaultWSConnectionFactory_New. rewrite Hthis.
  destruct Hai as [-> | (ai & -> & Htok)]; go_unfold.
  - simpl. fold url. by destruct (dialer_Dial world (trace m) url None).
  - unfold IAMToken. rewrite Htok. simpl. fold url.
    by destruct (dialer_Dial world (trace m) url None).
Qed.

(** With a credential, [header.Add] is reached with the nil header. *)
Lemma New_with_credential_panics_aux m wcf this ai token :
  factories m !! wcf = Some this ->
  Factory_AuthInfo this = Some ai ->
  authInfos m !! ai = Some token ->
  token <> "" ->
  DefaultWSConnectionFactory_New world wcf m = (Panics nil_map_assignment, m).
Proof.
  intros Hthis Hai Htok Hne. unfold DefaultWSConnectionFactory_New.
  rewrite Hthis, Hai. go_unfold. unfold IAMToken. rewrite Htok.
  destruct token as [|a token]; [done|]. simpl. by rewrite Htok.
Qed.

(** C1: the claim is that [New] of the default factory, for a present and
    non-empty credential, sets the Authorization header and dials.  The
    code declares [header] without making the map, so for every such
    credential [header.Add] panics on the nil map: nothing is dialled, and
    the machine is left as it was. *)
Theorem New_with_credential_panics m wcf this ai token :
  factories m !! wcf = Some this ->
  Factory_AuthInfo this = Some ai ->
  authInfos m !! ai = Some token ->
  token <> "" ->
  DefaultWSConnectionFactory_New world wcf m = (Panics nil_map_assignment, m) /\
  trace (DefaultWSConnectionFactory_New world wcf m).2 = trace m.
Proof.
  intros Hthis Hai Htok Hne.
  by rewrite (New_with_credential_panics_aux m wcf this ai token).
Qed.

(** ** What a call leaves alone *)

Lemma same_setup_refl m : same_setup m m.
Proof. by repeat split. Qed.

Lemma same_setup_trans m1 m2 m3 :
  same_setup m1 m2 -> same_setup m2 m3 -> same_setup m1 m3.
Proof. unfold same_setup. intros (?&?&?&?&?) (?&?&?&?&?). repeat split; congruence. Qed.

Lemma DefaultNew_frame wcf m :
  (DefaultWSConnectionFactory_New world wcf m).2 = m \/
  exists ev, (DefaultWSConnectionFactory_New world wcf m).2 = recorded ev m.
Proof.
  unfold DefaultWSConnectionFactory_New, IAMToken, Header_Add. go_unfold.
  repeat case_match; simplify_eq/=; eauto.
Qed.

Lemma New_frame f m :
  (WSConnectionFactory_New world f m).2 = m \/
  exists ev, (WSConnectionFactory_New world f m).2 = recorded ev m.
Proof.
  destruct f as [[p|id]|]; simpl.
  - apply DefaultNew_frame.
  - go_unfold. right. eexists. by destruct (supplied_New _ _ _).
  - by left.
Qed.

Lemma New_client f m :
  client (WSConnectionFactory_New world f m).2 = client m /\
  factories (WSConnectionFactory_New world f m).2 = factories m /\
  authInfos (WSConnectionFactory_New world f m).2 = authInfos m.
Proof. destruct (New_frame f m) as [-> | [ev ->]]; done. Qed.

Lemma Connect_wrap_same_setup r m :
  same_setup m (Connect_wrap world r m).2.
Proof.
  destruct r as [conn [e|]]; simpl; [apply same_setup_refl|]. go_unfold.
  destruct (ws_NewConnection _ _ _ _) as [k [e|]]; simpl; by repeat split.
Qed.

(** ** Connect *)

Lemma factory_ensured_field m :
  ConnectionFactory (client (factory_ensured m)) = Some (factory_in_use m).
Proof. unfold factory_ensured, factory_in_use. by case_match. Qed.

Lemma factory_ensured_rest m :
  Session (client (factory_ensured m)) = Session (client m) /\
  Client_ServerAddress (client (factory_ensured m)) = Client_ServerAddress (client m) /\
  AuthInfo (client (factory_ensured m)) = AuthInfo (client m) /\
  ConnectionOptions_ (client (factory_ensured m)) = ConnectionOptions_ (client m) /\
  authInfos (factory_ensured m) = authInfos m /\
  trace (factory_ensured m) = trace m.
Proof. unfold factory_ensured. by case_match. Qed.

(** [Connect] is its nil check, then [New] on the factory in use, then the
    wrapping. *)
Lemma Connect_unfold m :
  Connect world m =
    (r ← WSConnectionFactory_New world (Some (factory_in_use m));
     Connect_wrap world r) (factory_ensured m).
Proof.
  unfold Connect, factory_ensured, factory_in_use. go_unfold.
  destruct m as [[[f|] sa ai opts s] tokens fs tr]; simpl; reflexivity.
Qed.

Lemma Connect_same_setup m :
  same_setup (factory_ensured m) (Connect world m).2.
Proof.
  rewrite Connect_unfold. go_unfold.
  pose proof (New_client (Some (factory_in_use m)) (factory_ensured m)) as (Hc & Hf & _).
  destruct (WSConnectionFactory_New _ _ _) as [[r|why] m1]; simpl in *.
  - eapply same_setup_trans; [|apply Connect_wrap_same_setup].
    unfold same_setup. by rewrite Hc, Hf.
  - unfold same_setup. by rewrite Hc, Hf.
Qed.

Lemma factory_ensured_id m f :
  ConnectionFactory (client m) = Some f -> factory_ensured m = m.
Proof. unfold factory_ensured. by intros ->. Qed.

Lemma factory_ensured_factories m :
  ConnectionFactory (client m) = None ->
  factories (factory_ensured m) = factories m ++ [default_for m].
Proof. unfold factory_ensured. by intros ->. Qed.

(** What [Connect] answers, by what [New] and the wrapping answered. *)
Lemma Connect_cases m :
  let m0 := factory_ensured m in
  let opts := ConnectionOptions_ (client m) in
  match WSConnectionFactory_New world (Some (factory_in_use m)) m0 with
  | (Panics why, m1) => Connect world m = (Panics why, m1)
  | (Returns (conn, Some e), m1) => Connect world m = (Returns (Some e), m1)
  | (Returns (conn, None), m1) =>
      match ws_NewConnection world (trace m1) conn opts with
      | (_, Some fe) =>
          Connect world m =
            (Returns (Some (foreign fe)), recorded (EvNewConnection conn opts) m1)
      | (connection, None) =>
          Connect world m =
            (Returns None,
             with_Session
               (Some {| Session_ServerAddress := Client_ServerAddress (client m);
                        Session_Connection := connection |})
               (recorded (EvNewConnection conn opts) m1))
      end
  end.
Proof.
  intros m0 opts. rewrite Connect_unfold. fold m0. go_unfold.
  pose proof (New_client (Some (factory_in_use m)) m0) as (Hc & _).
  pose proof (factory_ensured_rest m) as (_ & Hsa & _ & Hopts & _).
  fold m0 in Hsa, Hopts.
  destruct (WSConnectionFactory_New _ _ _) as [[[conn [e|]]|why] m1];
    simpl in *; try reflexivity.
  go_unfold. simpl. rewrite Hc, Hopts. fold opts.
  destruct (ws_NewConnection _ _ _ _) as [k [fe|]];
    unfold with_Session, with_client, recorded; simpl; by rewrite ?Hc, ?Hsa.
Qed.

(** ** Disconnect *)

Lemma with_Session_same m : with_Session (Session (client m)) m = m.
Proof. by destruct m as [[]]. Qed.

Lemma Disconnect_cases m :
  match Session (client m) with
  | None => Disconnect world m = (Returns None, m)
  | Some session =>
      match Session_Connection session with
      | Some k =>
          Disconnect world m =
            (Returns (foreign <$> connection_Close world (trace m) k),
             with_Session None (recorded (EvClose k) m))
      | None => Disconnect world m = (Panics nil_dereference, m)
      end
  end.
Proof.
  unfold Disconnect. go_unfold.
  destruct (Session (client m)) as [[sa [k|]]|] eqn:Hs; simpl; try reflexivity.
  f_equal. rewrite <- (with_Session_same m) at 2. by rewrite Hs.
Qed.

(** Whenever [Disconnect] returns, with or without error, the Session is
    gone. *)
Lemma Disconnect_returns_clear m err m' :
  Disconnect world m = (Returns err, m') -> Session (client m') = None.
Proof.
  pose proof (Disconnect_cases m) as H.
  destruct (Session (client m)) as [[sa [k|]]|] eqn:Hs; simpl in H;
    rewrite H; intros [= <- <-]; done.
Qed.

(** On a client without Session it changes nothing. *)
Lemma Disconnect_idle m :
  Session (client m) = None -> Disconnect world m = (Returns None, m).
Proof. intros Hs. pose proof (Disconnect_cases m) as H. by rewrite Hs in H. Qed.

Lemma Disconnect_same_setup m : same_setup m (Disconnect world m).2.
Proof.
  pose proof (Disconnect_cases m) as H.
  destruct (Session (client m)) as [[sa [k|]]|]; simpl in H; rewrite H;
    by repeat split.
Qed.

(** ** SendMessage and Listen *)

Lemma SendMessage_cases e m :
  match Session (client m) with
  | None => SendMessage world e m = (Returns (Some no_active_session), m)
  | Some session =>
      match Session_Connection session with
      | Some k =>
          SendMessage world e m =
            (Returns (foreign <$> msgp_Encode world (trace m) (Some k) e),
             recorded (EvEncode (Some k) e) m)
      | None =>
          SendMessage world e m =
            (match msgp_Encode_nil world (trace m) e with
             | Returns err => Returns (foreign <$> err)
             | Panics why => Panics why
             end,
             recorded (EvEncode None e) m)
      end
  end.
Proof.
  unfold SendMessage, Encode. go_unfold.
  destruct (Session (client m)) as [[sa [k|]]|]; simpl; try reflexivity.
  by destruct (msgp_Encode_nil world (trace m) e).
Qed.

Lemma Listen_cases m :
  match Session (client m) with
  | None => Listen world m = (Returns (Some no_active_session), m)
  | Some session =>
      match Session_Connection session with
      | None => Listen world m = (Returns (Some no_active_session), m)
      | Some k =>
          Listen world m =
            (Returns (foreign <$> connection_Listen world (trace m) k),
             recorded (EvListen k) m)
      end
  end.
Proof.
  unfold Listen. go_unfold. by destruct (Session (client m)) as [[sa [k|]]|].
Qed.

Lemma SendMessage_same_setup e m : same_setup m (SendMessage world e m).2.
Proof.
  pose proof (SendMessage_cases e m) as H.
  destruct (Session (client m)) as [[sa [k|]]|]; simpl in H; rewrite H;
    by repeat split.
Qed.

Lemma Listen_same_setup m : same_setup m (Listen world m).2.
Proof.
  pose proof (Listen_cases m) as H.
  destruct (Session (client m)) as [[sa [k|]]|]; simpl in H; rewrite H;
    by repeat split.
Qed.

Lemma SetIAMToken_same_setup ai token m : same_setup m (SetIAMToken ai token m).2.
Proof. unfold SetIAMToken. case_match; by repeat split. Qed.

(** ** Reconnect *)

Lemma Reconnect_unfold m :
  Reconnect world m =
    match Disconnect world m with
    | (Returns None, m') => Connect world m'
    | (Returns (Some e), m') => (Returns (Some e), m')
    | (Panics why, m') => (Panics why, m')
    end.
Proof.
  unfold Reconnect. go_unfold.
  by destruct (Disconnect world m) as [[[e|]|why] m'].
Qed.

(** With the factory field set, no call changes the setup. *)
Lemma Connect_keeps_setup m f :
  ConnectionFactory (client m) = Some f -> same_setup m (Connect world m).2.
Proof.
  intros Hf. pose proof (Connect_same_setup m) as H.
  by rewrite (factory_ensured_id m f Hf) in H.
Qed.

Lemma Reconnect_keeps_setup m f :
  ConnectionFactory (client m) = Some f -> same_setup m (Reconnect world m).2.
Proof.
  intros Hf. rewrite Reconnect_unfold.
  pose proof (Disconnect_same_setup m) as Hd.
  destruct (Disconnect world m) as [[[e|]|why] m']; simpl in *; try done.
  eapply same_setup_trans; [exact Hd|].
  apply (Connect_keeps_setup m' f). destruct Hd as (-> & _). exact Hf.
Qed.

Lemma after_keeps_setup o m f :
  ConnectionFactory (client m) = Some f -> same_setup m (after world o m).
Proof.
  intros Hf. destruct o; simpl.
  - by apply (Connect_keeps_setup m f).
  - apply Disconnect_same_setup.
  - by apply (Reconnect_keeps_setup m f).
  - apply SendMessage_same_setup.
  - apply Listen_same_setup.
  - apply SetIAMToken_same_setup.
Qed.

Lemma after_all_keeps_setup ops m f :
  ConnectionFactory (client m) = Some f -> same_setup m (after_all world ops m).
Proof.
  revert m. induction ops as [|o ops IH]; intros m Hf; simpl.
  - apply same_setup_refl.
  - pose proof (after_keeps_setup o m f Hf) as Ho.
    eapply same_setup_trans; [exact Ho|].
    apply IH. destruct Ho as (-> & _). exact Hf.
Qed.

(** The same through [Connect]: a client with a non-empty credential and
    no factory of its own gets its default factory, and panics in [New]
    before anything is dialled. *)
Lemma Connect_default_with_credential_panics m ai token :
  ConnectionFactory (client m) = None ->
  AuthInfo (client m) = Some ai ->
  authInfos m !! ai = Some token ->
  token <> "" ->
  Connect world m = (Panics nil_map_assignment, factory_ensured m) /\
  trace (factory_ensured m) = trace m.
Proof.
  intros Hnil Hai Htok Hne.
  pose proof (factory_ensured_rest m) as (_ & _ & _ & _ & Htokens & Htrace).
  split; [|exact Htrace].
  rewrite Connect_unfold. go_unfold. unfold factory_in_use. rewrite Hnil. simpl.
  rewrite (New_with_credential_panics_aux (factory_ensured m) (length (factories m))
             (default_for m) ai token); try done.
  - rewrite (factory_ensured_factories m Hnil).
    rewrite lookup_app_r by done. by rewrite Nat.sub_diag.
  - by rewrite Htokens.
Qed.

(** ** The lifecycle claims *)

(** C2, amended: when [Connect] returns an error, the Session field is what
    it was before the call, so that a client that held no Session holds
    none (no partial Session is stored), while a Session held before the
    call is still held; and the error is the one [New] of the factory in
    use returned, or else the one the wrapping returned, unchanged. *)
Theorem Connect_error_leaves_Session m e m' :
  Connect world m = (Returns (Some e), m') ->
  Session (client m') = Session (client m) /\
  (Session (client m) = None -> Session (client m') = None) /\
  exists conn m1,
    (WSConnectionFactory_New world (Some (factory_in_use m)) (factory_ensured m)
       = (Returns (conn, Some e), m1) /\ m' = m1)
    \/
    (WSConnectionFactory_New world (Some (factory_in_use m)) (factory_ensured m)
       = (Returns (conn, None), m1) /\
     exists connection fe,
       ws_NewConnection world (trace m1) conn (ConnectionOptions_ (client m))
         = (connection, Some fe) /\
       e = foreign fe /\
       m' = recorded (EvNewConnection conn (ConnectionOptions_ (client m))) m1).
Proof.
  intros Hconnect.
  assert (Session (client m') = Session (client m) /\
          exists conn m1,
            (WSConnectionFactory_New world (Some (factory_in_use m)) (factory_ensured m)
               = (Returns (conn, Some e), m1) /\ m' = m1)
            \/
            (WSConnectionFactory_New world (Some (factory_in_use m)) (factory_ensured m)
               = (Returns (conn, None), m1) /\
             exists connection fe,
               ws_NewConnection world (trace m1) conn (ConnectionOptions_ (client m))
                 = (connection, Some fe) /\
               e = foreign fe /\
               m' = recorded (EvNewConnection conn (ConnectionOptions_ (client m))) m1))
    as [Hs Hwhy].
  { pose proof (Connect_cases m) as H. cbv zeta in H.
    pose proof (New_client (Some (factory_in_use m)) (factory_ensured m)) as (Hc & _).
    pose proof (factory_ensured_rest m) as (Hs & _).
    destruct (WSConnectionFactory_New _ _ _) as [[[conn [e1|]]|why] m1] eqn:Hnew;
      cbn [snd] in Hc.
    - rewrite H in Hconnect. injection Hconnect as <- <-.
      split; [by rewrite Hc|]. exists conn, m1. by left.
    - destruct (ws_NewConnection _ _ _ _) as [connection [fe|]] eqn:Hwrap;
        rewrite H in Hconnect; [|discriminate].
      injection Hconnect as <- <-. split; [simpl; by rewrite Hc|].
      exists conn, m1. right. split; [done|]. by exists connection, fe.
    - rewrite H in Hconnect. discriminate. }
  repeat split; [exact Hs| |exact Hwhy]. intros Hnone. by rewrite Hs.
Qed.

(** C3: the claim is that [Disconnect] leaves every client without
    Session.  For a Session whose Connection is the nil interface, the
    state [Listen] guards against, [Disconnect] calls [Close] on nil: it
    panics before the Session is cleared, and the Session stays. *)
Theorem Disconnect_hollow_Session_panics m session :
  Session (client m) = Some session ->
  Session_Connection session = None ->
  Disconnect world m = (Panics nil_dereference, m) /\
  Session (client (Disconnect world m).2) = Some session.
Proof.
  intros Hs Hk. pose proof (Disconnect_cases m) as H.
  rewrite Hs, Hk in H. by rewrite H.
Qed.

(** The behaviour of [Disconnect] wherever the Session, if any, has a
    Connection: the Connection is closed, the Session is cleared whether or
    not the close failed, the close error is returned, and a second
    [Disconnect] does nothing and succeeds. *)
Lemma Disconnect_clears_Session m :
  (forall session, Session (client m) = Some session ->
                   Session_Connection session <> None) ->
  exists err m',
    Disconnect world m = (Returns err, m') /\
    Session (client m') = None /\
    Disconnect world m' = (Returns None, m') /\
    match Session (client m) with
    | None => err = None /\ m' = m
    | Some session =>
        exists k, Session_Connection session = Some k /\
                  err = foreign <$> connection_Close world (trace m) k /\
                  m' = with_Session None (recorded (EvClose k) m)
    end.
Proof.
  intros Hwf. pose proof (Disconnect_cases m) as H.
  destruct (Session (client m)) as [[sa [k|]]|] eqn:Hs; simpl in H.
  - do 2 eexists. split; [exact H|]. split; [done|].
    split; [by apply Disconnect_idle|]. by exists k.
  - by destruct (Hwf _ eq_refl).
  - do 2 eexists. split; [exact H|]. split; [done|].
    split; [by apply Disconnect_idle|]. done.
Qed.

(** C4: [Reconnect] is [Disconnect] followed by [Connect] exactly when
    [Disconnect] succeeded.  It is the program of the specification; when
    [Disconnect] returns an error, [Reconnect] returns that error and the
    machine [Disconnect] left, which has no Session, the setup it had, and
    one call more in its trace, the close: no factory was built or asked,
    nothing dialled or wrapped; when [Disconnect] succeeds, [Reconnect] is
    [Connect] on the machine [Disconnect] left. *)
Theorem Reconnect_is_Disconnect_then_Connect m :
  Reconnect world m = Reconnect_spec world m /\
  (forall e m',
     Disconnect world m = (Returns (Some e), m') ->
     Reconnect world m = (Returns (Some e), m') /\
     Session (client m') = None /\
     same_setup m m' /\
     exists k, trace m' = trace m ++ [EvClose k]) /\
  (forall m',
     Disconnect world m = (Returns None, m') ->
     Reconnect world m = Connect world m').
Proof.
  split; [|split].
  - rewrite Reconnect_unfold. unfold Reconnect_spec.
    by destruct (Disconnect world m) as [[[e|]|why] m'].
  - intros e m' Hd. rewrite Reconnect_unfold, Hd. split; [done|].
    split; [by eapply Disconnect_returns_clear|].
    split; [pose proof (Disconnect_same_setup m) as H; by rewrite Hd in H|].
    pose proof (Disconnect_cases m) as H.
    destruct (Session (client m)) as [[sa [k|]]|]; simpl in H;
      rewrite H in Hd; [|discriminate..].
    injection Hd as _ <-. by exists k.
  - intros m' Hd. by rewrite Reconnect_unfold, Hd.
Qed.

(** C5: on a client with no Session, [SendMessage] and [Listen] both return
    the error this file makes, "No active session", and leave the machine
    as it was: the client is unchanged, and the trace has no call more, so
    nothing was written to or read from a connection. *)
Theorem no_Session_no_network m e :
  Session (client m) = None ->
  SendMessage world e m = (Returns (Some (errors_New "No active session")), m) /\
  Listen world m = (Returns (Some (errors_New "No active session")), m).
Proof.
  intros Hs. pose proof (SendMessage_cases e m) as Hsend.
  pose proof (Listen_cases m) as Hlisten. by rewrite Hs in Hsend, Hlisten.
Qed.

(** C6: when the factory field is set, [Connect] calls [New] on that very
    factory and leaves the field and the heap of default factories as they
    were; only when the field is nil does [Connect] build a default
    factory, at that moment, from the client's own ServerAddress and
    AuthInfo pointer, and store it in the field.  No other method builds a
    factory or touches the field. *)
Theorem Connect_factory_choice m :
  (forall f,
     ConnectionFactory (client m) = Some f ->
     Connect world m =
       (r ← WSConnectionFactory_New world (Some f); Connect_wrap world r) m /\
     ConnectionFactory (client (Connect world m).2) = Some f /\
     factories (Connect world m).2 = factories m) /\
  (ConnectionFactory (client m) = None ->
     let p := length (factories m) in
     let built :=
       {| Factory_ServerAddress := Client_ServerAddress (client m);
          Factory_AuthInfo := AuthInfo (client m) |} in
     Connect world m =
       (r ← WSConnectionFactory_New world (Some (default_factory p));
        Connect_wrap world r) (factory_ensured m) /\
     factories (factory_ensured m) = factories m ++ [built] /\
     factories (factory_ensured m) !! p = Some built /\
     ConnectionFactory (client (Connect world m).2) = Some (default_factory p) /\
     factories (Connect world m).2 = factories m ++ [built]) /\
  (forall msg,
     same_setup m (Disconnect world m).2 /\
     same_setup m (SendMessage world msg m).2 /\
     same_setup m (Listen world m).2).
Proof.
  split; [|split].
  - intros f Hf. pose proof (Connect_keeps_setup m f Hf) as (Hfield & _ & _ & _ & Hheap).
    rewrite Connect_unfold at 1. rewrite (factory_ensured_id m f Hf).
    unfold factory_in_use. rewrite Hf. by rewrite Hfield, Hheap.
  - intros Hnil p built.
    pose proof (Connect_same_setup m) as (Hfield & _ & _ & _ & Hheap).
    rewrite factory_ensured_field in Hfield.
    rewrite (factory_ensured_factories m Hnil) in Hheap.
    assert (factory_in_use m = default_factory p) as Huse
      by (unfold factory_in_use; by rewrite Hnil).
    rewrite Huse in Hfield. rewrite Connect_unfold at 1. rewrite Huse.
    rewrite (factory_ensured_factories m Hnil).
    repeat split; try done.
    rewrite lookup_app_r by done. by rewrite Nat.sub_diag.
  - intros msg. split; [apply Disconnect_same_setup|].
    split; [apply SendMessage_same_setup | apply Listen_same_setup].
Qed.

(** C7: when [New] of the factory in use returns a connection and no
    error, and the wrapping returns a Connection and no error, [Connect]
    succeeds and stores in the Session field one Session, made of the
    client's ServerAddress and that Connection; right after, [SendMessage]
    encodes onto that Connection and [Listen] listens on it, neither
    answering that there is no active session. *)
Theorem Connect_success_stores_Session m conn m1 k :
  WSConnectionFactory_New world (Some (factory_in_use m)) (factory_ensured m)
    = (Returns (conn, None), m1) ->
  ws_NewConnection world (trace m1) conn (ConnectionOptions_ (client m))
    = (Some k, None) ->
  let session :=
    {| Session_ServerAddress := Client_ServerAddress (client m);
       Session_Connection := Some k |} in
  let m' :=
    with_Session (Some session)
      (recorded (EvNewConnection conn (ConnectionOptions_ (client m))) m1) in
  Connect world m = (Returns None, m') /\
  Session (client m') = Some session /\
  (forall msg,
     SendMessage world msg m' =
       (Returns (foreign <$> msgp_Encode world (trace m') (Some k) msg),
        recorded (EvEncode (Some k) msg) m') /\
     foreign <$> msgp_Encode world (trace m') (Some k) msg
       <> Some no_active_session) /\
  Listen world m' =
    (Returns (foreign <$> connection_Listen world (trace m') k),
     recorded (EvListen k) m') /\
  foreign <$> connection_Listen world (trace m') k <> Some no_active_session.
Proof.
  intros Hnew Hwrap session m'.
  pose proof (Connect_cases m) as H. cbv zeta in H. rewrite Hnew, Hwrap in H.
  split; [exact H|]. split; [done|]. split; [intros msg; split|split].
  - exact (SendMessage_cases msg m').
  - by destruct (msgp_Encode _ _ _ _).
  - exact (Listen_cases m').
  - by destruct (connection_Listen _ _ _).
Qed.

(** C9: the guard of [SendMessage] looks at the Session only.  On a client
    whose Session is present with a nil Connection, [SendMessage] passes
    its guard and calls [msgp.Encode] with that nil Connection as writer:
    the call is the one thing it adds to the trace, and it ends as the
    encoder ends, with a panic or with the encoder's error, never with the
    "No active session" error of this file; [Listen], in the same state,
    returns that error and does nothing. *)
Theorem SendMessage_guard_ignores_Connection m session msg :
  Session (client m) = Some session ->
  Session_Connection session = None ->
  SendMessage world msg m =
    (match msgp_Encode_nil world (trace m) msg with
     | Returns err => Returns (foreign <$> err)
     | Panics why => Panics why
     end,
     recorded (EvEncode None msg) m) /\
  (SendMessage world msg m).1 <> Returns (Some no_active_session) /\
  trace (SendMessage world msg m).2 = trace m ++ [EvEncode None msg] /\
  client (SendMessage world msg m).2 = client m /\
  Listen world m = (Returns (Some no_active_session), m).
Proof.
  intros Hs Hk. pose proof (SendMessage_cases msg m) as Hsend.
  pose proof (Listen_cases m) as Hlisten.
  rewrite Hs, Hk in Hsend, Hlisten. rewrite Hsend.
  repeat split; try done.
  simpl. by destruct (msgp_Encode_nil _ _ _) as [[fe|]|why].
Qed.

(** C10: on a client whose factory field is nil, [Connect] stores the
    default factory it builds in the field whatever comes of the attempt
    (success, error or panic); after any further calls on the client and
    its credential, the field still holds that same factory, no other
    default factory has been built, and [Connect] and [Reconnect] go
    through it without building one. *)
Theorem default_factory_kept m ops :
  ConnectionFactory (client m) = None ->
  let p := length (factories m) in
  let m1 := (Connect world m).2 in
  let m2 := after_all world ops m1 in
  ConnectionFactory (client m1) = Some (default_factory p) /\
  factories m1 = factories m ++ [default_for m] /\
  ConnectionFactory (client m2) = Some (default_factory p) /\
  factories m2 = factories m1 /\
  Connect world m2 =
    (r ← WSConnectionFactory_New world (Some (default_factory p));
     Connect_wrap world r) m2 /\
  ConnectionFactory (client (Connect world m2).2) = Some (default_factory p) /\
  factories (Connect world m2).2 = factories m1 /\
  ConnectionFactory (client (Reconnect world m2).2) = Some (default_factory p) /\
  factories (Reconnect world m2).2 = factories m1.
Proof.
  intros Hnil p m1 m2.
  pose proof (Connect_same_setup m) as (Hfield1 & _ & _ & _ & Hheap1).
  rewrite factory_ensured_field in Hfield1.
  rewrite (factory_ensured_factories m Hnil) in Hheap1.
  assert (factory_in_use m = default_factory p) as Huse
    by (unfold factory_in_use; by rewrite Hnil).
  rewrite Huse in Hfield1. fold m1 in Hfield1, Hheap1.
  pose proof (after_all_keeps_setup ops m1 _ Hfield1) as (Hfield2 & _ & _ & _ & Hheap2).
  fold m2 in Hfield2, Hheap2. rewrite Hfield1 in Hfield2.
  pose proof (Connect_keeps_setup m2 _ Hfield2) as (Hfield3 & _ & _ & _ & Hheap3).
  pose proof (Reconnect_keeps_setup m2 _ Hfield2) as (Hfield4 & _ & _ & _ & Hheap4).
  repeat split; try congruence.
  rewrite Connect_unfold. rewrite (factory_ensured_id m2 _ Hfield2).
  unfold factory_in_use. by rewrite Hfield2.
Qed.

End Properties.

(** * The theorems at concrete clients *)

Section Instances.

Import Sample.

Lemma New_with_credential_panics_witness :
  authInfos own_default !! 0 = Some "secret" /\
  DefaultWSConnectionFactory_New reachable 0 own_default
    = (Panics nil_map_assignment, own_default).
Proof.
  split; [reflexivity|].
  apply (New_with_credential_panics reachable own_default 0
           {| Factory_ServerAddress := address; Factory_AuthInfo := Some 0 |}
           0 "secret"); [reflexivity..|discriminate].
Defined.

(** The first [Connect] of a client built with a credential. *)
Example Connect_with_token :
  Connect reachable with_token
    = (Panics nil_map_assignment, factory_ensured with_token) /\
  trace (factory_ensured with_token) = [].
Proof. split; reflexivity. Qed.

(** Without credential the same client connects. *)
Example Connect_anonymous :
  (Connect reachable anonymous).1 = Returns None /\
  trace (Connect reachable anonymous).2
    = [EvDial "wss://example.test/ingest" None;
       EvNewConnection (conn_handle 1) (connection_options 0)].
Proof. split; reflexivity. Qed.

(** C2, as stated, fails: a connected client whose factory fails gets the
    error from [Connect], and still holds its Session. *)
Lemma Connect_error_keeps_live_Session :
  Connect unreachable connected
    = (Returns (Some (foreign (foreign_error 7))),
       recorded (EvFactoryNew 4) connected) /\
  Session (client (recorded (EvFactoryNew 4) connected)) = Some live_session /\
  Session (client (recorded (EvFactoryNew 4) connected)) <> None.
Proof. repeat split; [reflexivity..|discriminate]. Qed.

Lemma Connect_error_leaves_Session_witness :
  Connect unreachable anonymous
    = (Returns (Some (foreign (foreign_error 7))),
       recorded (EvDial "wss://example.test/ingest" None)
         (factory_ensured anonymous)) /\
  Session (client (recorded (EvDial "wss://example.test/ingest" None)
                     (factory_ensured anonymous)))
    = Session (client anonymous).
Proof.
  split; [reflexivity|].
  exact (proj1 (Connect_error_leaves_Session unreachable anonymous
                  (foreign (foreign_error 7)) _ eq_refl)).
Defined.

Lemma Disconnect_hollow_Session_panics_witness :
  Session (client hollow) = Some hollow_session /\
  Disconnect reachable hollow = (Panics nil_dereference, hollow).
Proof.
  split; [reflexivity|].
  exact (proj1 (Disconnect_hollow_Session_panics reachable hollow
                  hollow_session eq_refl eq_refl)).
Defined.

Lemma Reconnect_is_Disconnect_then_Connect_witness :
  Disconnect unreachable connected
    = (Returns (Some (foreign (foreign_error 9))),
       with_Session None (recorded (EvClose (connection_handle 5)) connected)) /\
  Reconnect unreachable connected
    = (Returns (Some (foreign (foreign_error 9))),
       with_Session None (recorded (EvClose (connection_handle 5)) connected)).
Proof.
  split; [reflexivity|].
  exact (proj1 (proj1 (proj2 (Reconnect_is_Disconnect_then_Connect
                                unreachable connected)) _ _ eq_refl)).
Defined.

Lemma no_Session_no_network_witness :
  Session (client anonymous) = None /\
  SendMessage reachable (encodable 1) anonymous
    = (Returns (Some (errors_New "No active session")), anonymous) /\
  Listen reachable anonymous
    = (Returns (Some (errors_New "No active session")), anonymous).
Proof.
  split; [reflexivity|].
  exact (no_Session_no_network reachable anonymous (encodable 1) eq_refl).
Defined.

Lemma Connect_factory_choice_witness :
  ConnectionFactory (client connected) = Some (supplied_factory 4) /\
  ConnectionFactory (client (Connect reachable connected).2)
    = Some (supplied_factory 4) /\
  ConnectionFactory (client anonymous) = None /\
  ConnectionFactory (client (Connect reachable anonymous).2)
    = Some (default_factory 0).
Proof.
  split; [reflexivity|]. split.
  - exact (proj1 (proj2 (proj1 (Connect_factory_choice reachable connected)
                           (supplied_factory 4) eq_refl))).
  - split; [reflexivity|].
    exact (proj1 (proj2 (proj2 (proj2
             (proj1 (proj2 (Connect_factory_choice reachable anonymous))
                eq_refl))))).
Defined.

Lemma Connect_success_stores_Session_witness :
  WSConnectionFactory_New reachable (Some (factory_in_use anonymous))
      (factory_ensured anonymous)
    = (Returns (conn_handle 1, None),
       recorded (EvDial "wss://example.test/ingest" None)
         (factory_ensured anonymous)) /\
  Session (client (Connect reachable anonymous).2)
    = Some {| Session_ServerAddress := address;
              Session_Connection := Some (connection_handle 3) |}.
Proof.
  split; [reflexivity|].
  pose proof (Connect_success_stores_Session reachable anonymous
                (conn_handle 1) _ (connection_handle 3) eq_refl eq_refl)
    as (Hconnect & Hsession & _).
  rewrite Hconnect. exact Hsession.
Defined.

Lemma SendMessage_guard_ignores_Connection_witness :
  Session (client hollow) = Some hollow_session /\
  SendMessage reachable (encodable 1) hollow
    = (Panics nil_dereference, recorded (EvEncode None (encodable 1)) hollow) /\
  Listen reachable hollow = (Returns (Some no_active_session), hollow).
Proof.
  split; [reflexivity|].
  pose proof (SendMessage_guard_ignores_Connection reachable hollow
                hollow_session (encodable 1) eq_refl eq_refl)
    as (Hsend & _ & _ & _ & Hlisten).
  split; [exact Hsend | exact Hlisten].
Defined.

Lemma default_factory_kept_witness :
  (Connect unreachable anonymous).1
    = Returns (Some (foreign (foreign_error 7))) /\
  ConnectionFactory
    (client (after_all unreachable [OpReconnect; OpConnect]
               (Connect unreachable anonymous).2))
    = Some (default_factory 0) /\
  factories (after_all unreachable [OpReconnect; OpConnect]
               (Connect unreachable anonymous).2)
    = [default_for anonymous].
Proof.
  split; [reflexivity|].
  pose proof (default_factory_kept unreachable anonymous
                [OpReconnect; OpConnect] eq_refl)
    as (_ & Hbuilt & Hfield & Hheap & _).
  split; [exact Hfield|]. rewrite Hheap. exact Hbuilt.
Defined.

End Instances.

(** * Beyond the lifecycle claims *)

Section Coverage.

Context (world : Collaborators).

Implicit Types (m : Machine).

(** ** IAMAuthInfo *)

(** X1: a token written with [SetIAMToken] is the token [IAMToken] reads
    next from that object; the token of every other object, the client,
    the factories and the trace are untouched. *)
Theorem SetIAMToken_then_IAMToken m ai old token :
  authInfos m !! ai = Some old ->
  let m' := (SetIAMToken ai token m).2 in
  SetIAMToken ai token m = (Returns tt, m') /\
  IAMToken ai m' = (Returns token, m') /\
  (forall other, other <> ai -> (IAMToken other m').1 = (IAMToken other m).1) /\
  client m' = client m /\ factories m' = factories m /\ trace m' = trace m.
Proof.
  intros Hold m'. subst m'. unfold SetIAMToken, IAMToken. rewrite Hold. simpl.
  split; [done|]. split.
  - rewrite list_lookup_insert_eq; [done|]. by apply lookup_lt_Some in Hold.
  - split; [|done]. intros other Hother.
    unfold loc in *. rewrite list_lookup_insert_ne by congruence.
    by destruct (authInfos m !! other).
Qed.

(** X2: [NewIAMAuthInfo] returns an object that was not there before and
    holds the given token, empty or not; the objects that were there keep
    their tokens. *)
Theorem NewIAMAuthInfo_then_IAMToken m token :
  let ai := (NewIAMAuthInfo token m).1 in
  let m' := (NewIAMAuthInfo token m).2 in
  ai = Returns (length (authInfos m)) /\
  authInfos m !! length (authInfos m) = None /\
  IAMToken (length (authInfos m)) m' = (Returns token, m') /\
  (forall other t, IAMToken other m = (Returns t, m) ->
                   IAMToken other m' = (Returns t, m')) /\
  client m' = client m /\ factories m' = factories m /\ trace m' = trace m.
Proof.
  intros ai m'. subst ai m'. unfold NewIAMAuthInfo, IAMToken. simpl.
  split; [done|]. split; [by apply lookup_ge_None_2|]. split.
  - rewrite lookup_app_r by done. by rewrite Nat.sub_diag.
  - split; [|done]. intros other t.
    destruct (authInfos m !! other) as [t'|] eqn:Hother; [|done].
    intros [= ->]. by rewrite (lookup_app_l_Some _ _ _ _ Hother).
Qed.

(** ** DefaultWSConnectionFactory.New *)

(** X3: [New] never hands a header to the dialer.  Either it panics before
    any call, or the factory has no AuthInfo or an empty token, and then
    [New] dials once, the String() of its address with the nil header, and
    returns the connection and the error of the dial as they are. *)
Theorem New_dials_with_nil_header m wcf :
  (exists why, DefaultWSConnectionFactory_New world wcf m = (Panics why, m)) \/
  (exists this,
     factories m !! wcf = Some this /\
     (Factory_AuthInfo this = None \/
      exists ai, Factory_AuthInfo this = Some ai /\ authInfos m !! ai = Some "") /\
     DefaultWSConnectionFactory_New world wcf m =
       (Returns
          ((dialer_Dial world (trace m)
              (ServerAddress_String (Factory_ServerAddress this)) None).1,
           foreign <$>
             (dialer_Dial world (trace m)
                (ServerAddress_String (Factory_ServerAddress this)) None).2),
        recorded (EvDial (ServerAddress_String (Factory_ServerAddress this)) None) m)).
Proof.
  destruct (factories m !! wcf) as [this|] eqn:Hthis.
  - destruct (Factory_AuthInfo this) as [ai|] eqn:Hai.
    + destruct (authInfos m !! ai) as [token|] eqn:Htok.
      * destruct (decide (token = "")) as [->|Hne].
        -- right. exists this. split; [done|]. split; [right; by exists ai|].
           apply (New_without_credential world m wcf this Hthis). right. by exists ai.
        -- left. exists nil_map_assignment.
           by apply (New_with_credential_panics_aux world m wcf this ai token).
      * left. exists nil_dereference. unfold DefaultWSConnectionFactory_New.
        rewrite Hthis, Hai. go_unfold. unfold IAMToken. by rewrite Htok.
    + right. exists this. split; [done|]. split; [by left|].
      apply (New_without_credential world m wcf this Hthis). by left.
  - left. exists nil_dereference. unfold DefaultWSConnectionFactory_New.
    by rewrite Hthis.
Qed.

(** ** What each method does to the machine *)

Lemma New_calls f m :
  (WSConnectionFactory_New world f m).2 = m \/
  exists ev, connect_call ev = true /\
             (WSConnectionFactory_New world f m).2 = recorded ev m.
Proof.
  destruct f as [[p|id]|]; simpl; [| |by left].
  - unfold DefaultWSConnectionFactory_New, IAMToken, Header_Add. go_unfold.
    repeat case_match; simplify_eq/=;
      first [by left | right; eexists; split; [|reflexivity]; done].
  - go_unfold. right. exists (EvFactoryNew id).
    by destruct (supplied_New _ _ _).
Qed.

(** The machine [Connect] leaves, against the machine it found. *)
Lemma Connect_effect m :
  exists evs,
    trace (Connect world m).2 = trace m ++ evs /\
    length evs <= 2 /\
    Forall (fun ev => connect_call ev = true) evs /\
    authInfos (Connect world m).2 = authInfos m /\
    same_identity m (Connect world m).2 /\
    (Session (client (Connect world m).2) = Session (client m) \/
     exists connection,
       (Connect world m).1 = Returns None /\
       Session (client (Connect world m).2) =
         Some {| Session_ServerAddress := Client_ServerAddress (client m);
                 Session_Connection := connection |}).
Proof.
  pose proof (Connect_cases world m) as H. cbv zeta in H.
  pose proof (New_calls (Some (factory_in_use m)) (factory_ensured m)) as Hnew.
  pose proof (factory_ensured_rest m) as (Hs & Hsa & Hai & Hopts & Htok & Htr).
  destruct (WSConnectionFactory_New _ _ _) as [[[conn [e|]]|why] m1];
    cbn [snd] in Hnew.
  1,3: rewrite H; cbn [fst snd];
    destruct Hnew as [-> | (ev & Hev & ->)];
    [exists [] | exists [ev]];
    unfold same_identity; simpl; rewrite ?app_nil_r, ?Htr;
    repeat split; auto.
  destruct (ws_NewConnection _ _ _ _) as [connection [fe|]];
    rewrite H; cbn [fst snd];
    destruct Hnew as [-> | (ev & Hev & ->)];
    [exists [EvNewConnection conn (ConnectionOptions_ (client m))]
    |exists [ev; EvNewConnection conn (ConnectionOptions_ (client m))]
    |exists [EvNewConnection conn (ConnectionOptions_ (client m))]
    |exists [ev; EvNewConnection conn (ConnectionOptions_ (client m))]];
    unfold same_identity; simpl; rewrite ?Htr, <- ?app_assoc;
    repeat split; eauto.
Qed.

Lemma Disconnect_effect m :
  authInfos (Disconnect world m).2 = authInfos m /\
  same_identity m (Disconnect world m).2 /\
  (Session (client (Disconnect world m).2) = Session (client m) \/
   Session (client (Disconnect world m).2) = None).
Proof.
  pose proof (Disconnect_cases world m) as H.
  destruct (Session (client m)) as [[sa [k|]]|] eqn:Hs; simpl in H; rewrite H;
    unfold same_identity; simpl; repeat split; auto.
Qed.

Lemma SendMessage_client msg m :
  client (SendMessage world msg m).2 = client m /\
  authInfos (SendMessage world msg m).2 = authInfos m /\
  factories (SendMessage world msg m).2 = factories m.
Proof.
  pose proof (SendMessage_cases world msg m) as H.
  destruct (Session (client m)) as [[sa [k|]]|]; simpl in H; by rewrite H.
Qed.

Lemma Listen_client m :
  client (Listen world m).2 = client m /\
  authInfos (Listen world m).2 = authInfos m /\
  factories (Listen world m).2 = factories m.
Proof.
  pose proof (Listen_cases world m) as H.
  destruct (Session (client m)) as [[sa [k|]]|]; simpl in H; by rewrite H.
Qed.

Lemma same_identity_trans m1 m2 m3 :
  same_identity m1 m2 -> same_identity m2 m3 -> same_identity m1 m3.
Proof. unfold same_identity. intros (?&?&?) (?&?&?). repeat split; congruence. Qed.

Lemma after_effect o m :
  same_identity m (after world o m) /\
  (client_call o = true -> authInfos (after world o m) = authInfos m) /\
  Session_step m (after world o m).
Proof.
  unfold Session_step. destruct o; simpl.
  - destruct (Connect_effect m) as (evs & _ & _ & _ & Htok & Hid & [Hs | (k & _ & Hs)]);
      repeat split; try apply Hid; eauto.
  - destruct (Disconnect_effect m) as (Htok & Hid & [Hs | Hs]);
      repeat split; try apply Hid; eauto.
  - rewrite Reconnect_unfold.
    destruct (Disconnect_effect m) as (Htok & Hid & Hs).
    destruct (Disconnect world m) as [[[e|]|why] m1]; cbn [snd] in *;
      [repeat split; try apply Hid; intuition eauto | |
       repeat split; try apply Hid; intuition eauto].
    destruct (Connect_effect m1) as (evs & _ & _ & _ & Htok2 & Hid2 & Hs2).
    pose proof (same_identity_trans _ _ _ Hid Hid2) as Hid3.
    destruct Hid as (Hsa & _).
    repeat split; try apply Hid3; [congruence|].
    destruct Hs2 as [Hs2 | (k & _ & Hs2)].
    + rewrite Hs2. destruct Hs as [Hs | Hs]; eauto.
    + right. right. exists k. by rewrite Hs2, Hsa.
  - destruct (SendMessage_client e m) as (Hc & Htok & _).
    unfold same_identity. rewrite Hc. repeat split; eauto.
  - destruct (Listen_client m) as (Hc & Htok & _).
    unfold same_identity. rewrite Hc. repeat split; eauto.
  - unfold SetIAMToken, same_identity. case_match; repeat split; eauto; done.
Qed.

(** ** Connect *)

(** X5: the calls [Connect] makes to its collaborators are at most two,
    [New] of the factory and then [ws.NewConnection]; it never closes a
    connection, neither the Connection of a Session it replaces nor the raw
    connection whose wrapping failed, and never listens or encodes. *)
Theorem Connect_calls_New_then_NewConnection m :
  exists evs,
    trace (Connect world m).2 = trace m ++ evs /\
    length evs <= 2 /\
    Forall (fun ev => connect_call ev = true) evs /\
    (forall k, EvClose k ∉ evs) /\
    (forall ev, evs !! 1 = Some ev ->
       exists conn, ev = EvNewConnection conn (ConnectionOptions_ (client m))).
Proof.
  pose proof (Connect_cases world m) as H. cbv zeta in H.
  pose proof (New_calls (Some (factory_in_use m)) (factory_ensured m)) as Hnew.
  pose proof (factory_ensured_rest m) as (_ & _ & _ & _ & _ & Htr).
  assert (forall evs, Forall (fun ev => connect_call ev = true) evs ->
                      forall k, EvClose k ∉ evs) as Hclose.
  { intros evs Hall k Hin. rewrite Forall_forall in Hall.
    by specialize (Hall _ Hin). }
  destruct (WSConnectionFactory_New _ _ _) as [[[conn [e|]]|why] m1];
    cbn [snd] in Hnew.
  1,3: rewrite H; cbn [snd];
    destruct Hnew as [-> | (ev & Hev & ->)];
    [exists [] | exists [ev]];
    simpl; rewrite ?app_nil_r, ?Htr;
    (split; [done|]); (split; [lia|]);
    (split; [by repeat constructor|]);
    (split; [apply Hclose; by repeat constructor|]); by intros ev'.
  destruct (ws_NewConnection _ _ _ _) as [connection [fe|]];
    rewrite H; cbn [snd];
    destruct Hnew as [-> | (ev & Hev & ->)];
    [exists [EvNewConnection conn (ConnectionOptions_ (client m))]
    |exists [ev; EvNewConnection conn (ConnectionOptions_ (client m))]
    |exists [EvNewConnection conn (ConnectionOptions_ (client m))]
    |exists [ev; EvNewConnection conn (ConnectionOptions_ (client m))]];
    simpl; rewrite ?Htr, <- ?app_assoc;
    (split; [done|]); (split; [lia|]);
    (split; [by repeat constructor|]);
    (split; [apply Hclose; by repeat constructor|]);
    intros ev'; simpl; intros [= <-]; by exists conn.
Qed.

(** [Connect] returns nil only with a Session stored. *)
Lemma Connect_nil_stores m :
  (Connect world m).1 = Returns None ->
  exists connection,
    Session (client (Connect world m).2) =
      Some {| Session_ServerAddress := Client_ServerAddress (client m);
              Session_Connection := connection |}.
Proof.
  pose proof (Connect_cases world m) as H. cbv zeta in H.
  destruct (WSConnectionFactory_New _ _ _) as [[[conn [e|]]|why] m1];
    [by rewrite H| |by rewrite H].
  destruct (ws_NewConnection _ _ _ _) as [connection [fe|]]; rewrite H; [done|].
  intros _. by exists connection.
Qed.

(** [Connect] through a supplied factory, in full. *)
Lemma Connect_supplied m id :
  ConnectionFactory (client m) = Some (supplied_factory id) ->
  let opts := ConnectionOptions_ (client m) in
  let m1 := recorded (EvFactoryNew id) m in
  Connect world m =
    match supplied_New world (trace m) id with
    | (_, Some fe) => (Returns (Some (foreign fe)), m1)
    | (conn, None) =>
        match ws_NewConnection world (trace m1) conn opts with
        | (_, Some fe) =>
            (Returns (Some (foreign fe)), recorded (EvNewConnection conn opts) m1)
        | (connection, None) =>
            (Returns None,
             with_Session
               (Some {| Session_ServerAddress := Client_ServerAddress (client m);
                        Session_Connection := connection |})
               (recorded (EvNewConnection conn opts) m1))
        end
    end.
Proof.
  intros Hf opts m1. pose proof (Connect_cases world m) as H. cbv zeta in H.
  rewrite (factory_ensured_id m _ Hf) in H.
  unfold factory_in_use in H. rewrite Hf in H.
  unfold WSConnectionFactory_New, mbind, Go_bind, mret, Go_ret, call in H.
  fold (recorded (EvFactoryNew id) m) in H. fold m1 in H.
  destruct (supplied_New world (trace m) id) as [conn [fe|]]; simpl in H;
    [exact H|].
  fold opts in H. by destruct (ws_NewConnection _ _ _ _) as [connection [fe|]].
Qed.

(** X12: through a factory supplied by the caller, [Connect] never panics
    and never dials; its first call is [New] of that factory; and it never
    reads the credential: with any other tokens in the AuthInfo objects the
    outcome and the calls are the same. *)
Theorem Connect_with_supplied_factory m id :
  ConnectionFactory (client m) = Some (supplied_factory id) ->
  (exists err, (Connect world m).1 = Returns err) /\
  (exists evs,
     trace (Connect world m).2 = trace m ++ EvFactoryNew id :: evs /\
     forall url header, EvDial url header ∉ EvFactoryNew id :: evs) /\
  (forall tokens,
     (Connect world (with_authInfos tokens m)).1 = (Connect world m).1 /\
     trace (Connect world (with_authInfos tokens m)).2 = trace (Connect world m).2 /\
     client (Connect world (with_authInfos tokens m)).2 = client (Connect world m).2).
Proof.
  intros Hf. pose proof (Connect_supplied m id Hf) as H. cbv zeta in H.
  split; [|split].
  - rewrite H. destruct (supplied_New _ _ _) as [conn [fe|]]; [by eexists|].
    destruct (ws_NewConnection _ _ _ _) as [connection [fe|]]; by eexists.
  - rewrite H. destruct (supplied_New _ _ _) as [conn [fe|]].
    + exists []. split; [done|]. intros url header Hin.
      apply list_elem_of_singleton in Hin. discriminate.
    + destruct (ws_NewConnection _ _ _ _) as [connection [fe|]];
        exists [EvNewConnection conn (ConnectionOptions_ (client m))];
        (split; [simpl; by rewrite <- app_assoc|]);
        intros url header Hin;
        repeat (apply elem_of_cons in Hin as [Hin|Hin]; [discriminate|]);
        by apply elem_of_nil in Hin.
  - intros tokens.
    pose proof (Connect_supplied (with_authInfos tokens m) id Hf) as H'.
    cbv zeta in H'. simpl in H'. rewrite H, H'.
    destruct (supplied_New _ _ _) as [conn [fe|]]; [done|].
    simpl. by destruct (ws_NewConnection _ _ _ _) as [connection [fe|]].
Qed.

(** When [New] of a default factory panics on the nil header. *)
Lemma DefaultNew_nil_map_panic m wcf m' :
  DefaultWSConnectionFactory_New world wcf m = (Panics nil_map_assignment, m') ->
  exists this ai token,
    factories m !! wcf = Some this /\ Factory_AuthInfo this = Some ai /\
    authInfos m !! ai = Some token /\ token <> "".
Proof.
  intros H. destruct (factories m !! wcf) as [this|] eqn:Hthis.
  - destruct (Factory_AuthInfo this) as [ai|] eqn:Hai.
    + destruct (authInfos m !! ai) as [token|] eqn:Htok.
      * destruct (decide (token = "")) as [->|Hne].
        -- rewrite (New_without_credential world m wcf this Hthis) in H;
             [discriminate|]. right. by exists ai.
        -- by exists this, ai, token.
      * unfold DefaultWSConnectionFactory_New in H. rewrite Hthis, Hai in H.
        unfold mbind, Go_bind, IAMToken in H. rewrite Htok in H. discriminate.
    + rewrite (New_without_credential world m wcf this Hthis) in H;
        [discriminate|]. by left.
  - unfold DefaultWSConnectionFactory_New in H. rewrite Hthis in H. discriminate.
Qed.

(** X13: [Connect] panics on the nil header map exactly when the factory in
    use is a default factory whose AuthInfo holds a non-empty token; the
    panic comes before any call to a collaborator, with the default factory
    already in the field. *)
Theorem Connect_panics_iff_credential m :
  (exists m', Connect world m = (Panics nil_map_assignment, m')) <->
  (exists token, credential_in_use m = Some token /\ token <> "").
Proof.
  pose proof (factory_ensured_rest m) as (_ & _ & _ & _ & Htok & _).
  unfold credential_in_use. split.
  - intros [m' Hpanic]. pose proof (Connect_cases world m) as H. cbv zeta in H.
    destruct (WSConnectionFactory_New _ _ _) as [[[conn [e|]]|why] m1] eqn:Hnew.
    + rewrite H in Hpanic. discriminate.
    + destruct (ws_NewConnection _ _ _ _) as [connection [fe|]];
        rewrite H in Hpanic; discriminate.
    + rewrite H in Hpanic. injection Hpanic as -> ->.
      destruct (factory_in_use m) as [p|id]; simpl in Hnew.
      * apply DefaultNew_nil_map_panic in Hnew
          as (this & ai & token & Hthis & Hai & Htoken & Hne).
        exists token. rewrite Hthis, Hai. by rewrite <- Htok.
      * unfold mbind, Go_bind, call in Hnew.
        destruct (supplied_New _ _ _); discriminate.
  - intros (token & Hcred & Hne). exists (factory_ensured m).
    destruct (factory_in_use m) as [p|id] eqn:Huse; [|discriminate].
    destruct (factories (factory_ensured m) !! p) as [this|] eqn:Hthis;
      [|discriminate].
    destruct (Factory_AuthInfo this) as [ai|] eqn:Hai; [|discriminate].
    rewrite Connect_unfold, Huse. go_unfold. simpl.
    rewrite (New_with_credential_panics_aux world (factory_ensured m) p this ai token);
      try done. by rewrite Htok.
Qed.

(** X4: the default factory reads the token of the client's AuthInfo
    object at each [New], not a copy taken when the factory was built.  A
    client built with an empty token gets through its first [Connect]
    without panic; once the token is set to a non-empty one, the next
    [Connect] of the same client, through the same factory, panics on the
    nil header. *)
Theorem default_factory_shares_the_credential m ai token :
  ConnectionFactory (client m) = None ->
  AuthInfo (client m) = Some ai ->
  authInfos m !! ai = Some "" ->
  token <> "" ->
  let m1 := (Connect world m).2 in
  let m2 := (SetIAMToken ai token m1).2 in
  (exists err, (Connect world m).1 = Returns err) /\
  ConnectionFactory (client m2) = Some (default_factory (length (factories m))) /\
  Connect world m2 = (Panics nil_map_assignment, m2).
Proof.
  intros Hnil Hai Hempty Hne m1 m2.
  pose proof (factory_ensured_rest m) as (_ & _ & _ & _ & Htok0 & _).
  assert (factory_in_use m = default_factory (length (factories m))) as Huse
    by (unfold factory_in_use; by rewrite Hnil).
  assert (factories (factory_ensured m) !! length (factories m)
          = Some (default_for m)) as Hthis.
  { rewrite (factory_ensured_factories m Hnil).
    rewrite lookup_app_r by done. by rewrite Nat.sub_diag. }
  pose proof (Connect_same_setup world m) as (Hfield & _ & _ & _ & Hheap).
  rewrite factory_ensured_field, Huse in Hfield. fold m1 in Hfield, Hheap.
  destruct (Connect_effect m) as (_ & _ & _ & _ & Htok1 & _). fold m1 in Htok1.
  split; [|split].
  - pose proof (Connect_cases world m) as H. cbv zeta in H.
    rewrite Huse in H. simpl in H.
    rewrite (New_without_credential world (factory_ensured m) _ _ Hthis) in H.
    2: { right. exists ai. split; [exact Hai|]. by rewrite Htok0. }
    destruct (dialer_Dial _ _ _ _) as [conn [fe|]]; simpl in H.
    + rewrite H. by eexists.
    + destruct (ws_NewConnection _ _ _ _) as [connection [fe|]];
        rewrite H; by eexists.
  - subst m2. unfold SetIAMToken. rewrite Htok1, Hempty. exact Hfield.
  - assert (ConnectionFactory (client m2) =
            Some (default_factory (length (factories m)))) as Hfield2.
    { subst m2. unfold SetIAMToken. rewrite Htok1, Hempty. exact Hfield. }
    rewrite Connect_unfold, (factory_ensured_id m2 _ Hfield2).
    unfold factory_in_use. rewrite Hfield2. go_unfold. simpl.
    rewrite (New_with_credential_panics_aux world m2 (length (factories m))
               (default_for m) ai token); try done.
    + subst m2. unfold SetIAMToken. rewrite Htok1, Hempty.
      cbn [snd factories]. by rewrite Hheap.
    + subst m2. unfold SetIAMToken. rewrite Htok1, Hempty.
      cbn [snd authInfos]. apply list_lookup_insert_eq.
      by apply lookup_lt_Some in Hempty.
Qed.

(** ** Disconnect *)

(** X6: on a client whose Session has a Connection, [Disconnect] calls
    [Close] on that Connection, once, and nothing else; it clears the
    Session and returns what [Close] returned, error or not; nothing else
    of the machine changes; and a [Disconnect] right after does nothing and
    returns nil. *)
Theorem Disconnect_closes_once_and_clears m session k :
  Session (client m) = Some session ->
  Session_Connection session = Some k ->
  let m' := (Disconnect world m).2 in
  (Disconnect world m).1 = Returns (foreign <$> connection_Close world (trace m) k) /\
  trace m' = trace m ++ [EvClose k] /\
  Session (client m') = None /\
  same_setup m m' /\
  authInfos m' = authInfos m /\
  Disconnect world m' = (Returns None, m').
Proof.
  intros Hs Hk m'. pose proof (Disconnect_cases world m) as H.
  rewrite Hs, Hk in H. subst m'. rewrite H. cbn [fst snd].
  do 3 (split; [done|]). split; [by repeat split|]. split; [done|].
  by apply Disconnect_idle.
Qed.

(** ** Reconnect *)

(** X7: on a client without Session, [Reconnect] is [Connect].  On any
    client, when [Reconnect] returns an error the client holds no Session
    (the Session it had is gone, even if the error is that of [Connect]);
    when it returns nil the client holds a Session built by this call, at
    the address of the client. *)
Theorem Reconnect_error_leaves_no_Session m :
  (Session (client m) = None -> Reconnect world m = Connect world m) /\
  (forall err m',
     Reconnect world m = (Returns err, m') ->
     match err with
     | Some _ => Session (client m') = None
     | None =>
         exists connection,
           Session (client m') =
             Some {| Session_ServerAddress := Client_ServerAddress (client m);
                     Session_Connection := connection |}
     end).
Proof.
  split.
  - intros Hs. by rewrite Reconnect_unfold, (Disconnect_idle world m Hs).
  - intros err m'. rewrite Reconnect_unfold.
    destruct (Disconnect_effect m) as (_ & (Hsa & _) & _).
    destruct (Disconnect world m) as [[[e|]|why] m1] eqn:Hd; cbn [snd] in Hsa.
    + intros [= <- <-]. by eapply Disconnect_returns_clear.
    + intros Hc. pose proof (Disconnect_returns_clear world m _ _ Hd) as Hs1.
      destruct err as [e|].
      * destruct (Connect_effect m1) as (_ & _ & _ & _ & _ & _ & [Hs | (k & Hnil & _)]).
        -- rewrite Hc in Hs. simpl in Hs. by rewrite Hs.
        -- rewrite Hc in Hnil. discriminate.
      * destruct (Connect_nil_stores m1) as (k & Hs); [by rewrite Hc|].
        rewrite Hc in Hs. exists k. by rewrite <- Hsa.
    + discriminate.
Qed.

(** ** SendMessage and Listen *)

(** X8: [SendMessage] and [Listen] never change the client, the
    credentials or the factories: the Session stays in place also when the
    encoder or the read loop fails.  With a Connection in the Session, each
    makes one call, on that Connection, and returns its error unchanged. *)
Theorem SendMessage_and_Listen_keep_the_client msg m :
  (client (SendMessage world msg m).2 = client m /\
   authInfos (SendMessage world msg m).2 = authInfos m /\
   factories (SendMessage world msg m).2 = factories m) /\
  (client (Listen world m).2 = client m /\
   authInfos (Listen world m).2 = authInfos m /\
   factories (Listen world m).2 = factories m) /\
  (forall session k,
     Session (client m) = Some session ->
     Session_Connection session = Some k ->
     SendMessage world msg m =
       (Returns (foreign <$> msgp_Encode world (trace m) (Some k) msg),
        recorded (EvEncode (Some k) msg) m) /\
     Listen world m =
       (Returns (foreign <$> connection_Listen world (trace m) k),
        recorded (EvListen k) m)).
Proof.
  split; [apply SendMessage_client|]. split; [apply Listen_client|].
  intros session k Hs Hk.
  pose proof (SendMessage_cases world msg m) as Hsend.
  pose proof (Listen_cases world m) as Hlisten.
  rewrite Hs in Hsend, Hlisten. cbv zeta in Hsend. by rewrite Hk in Hsend, Hlisten.
Qed.

(** ** Any sequence of calls *)

(** X9: the methods of the client only read the credential: after any
    sequence of Connect, Disconnect, Reconnect, SendMessage and Listen,
    every AuthInfo object holds the token it held. *)
Theorem client_calls_never_write_credentials ops m :
  Forall (fun o => client_call o = true) ops ->
  authInfos (after_all world ops m) = authInfos m.
Proof.
  revert m. induction ops as [|o ops IH]; intros m Hall; [done|].
  inversion Hall as [|? ? Ho Hops]; subst. simpl.
  rewrite (IH _ Hops). by apply after_effect.
Qed.

(** X10: no sequence of calls, whatever their outcomes, changes the
    address, the AuthInfo pointer or the options of the client. *)
Theorem calls_keep_identity ops m :
  same_identity m (after_all world ops m).
Proof.
  revert m. induction ops as [|o ops IH]; intros m; simpl.
  - by repeat split.
  - eapply same_identity_trans; [|apply IH]. apply after_effect.
Qed.

(** X11: if the Session of the client, when there is one, carries the
    address of the client, this still holds after any sequence of calls:
    Sessions are only stored by [Connect], at the client's address. *)
Theorem calls_keep_session_at_client_address ops m :
  session_at_client_address m ->
  session_at_client_address (after_all world ops m).
Proof.
  revert m. induction ops as [|o ops IH]; intros m Hinv; [done|].
  simpl. apply IH.
  destruct (after_effect o m) as ((Hsa & _) & _ & Hstep).
  unfold session_at_client_address in *. intros session Hs. rewrite Hsa.
  destruct Hstep as [Hsame | [Hnone | (k & Hnew)]].
  - apply Hinv. by rewrite <- Hsame.
  - by rewrite Hnone in Hs.
  - rewrite Hnew in Hs. by injection Hs as <-.
Qed.

(** ** Connect, then Disconnect *)

(** X17: after a [Connect] that succeeded, [Disconnect] closes the
    Connection the wrapping returned, returns what [Close] returned, and
    leaves the client without Session and with the factory [Connect]
    used. *)
Theorem Connect_then_Disconnect m conn m1 k :
  WSConnectionFactory_New world (Some (factory_in_use m)) (factory_ensured m)
    = (Returns (conn, None), m1) ->
  ws_NewConnection world (trace m1) conn (ConnectionOptions_ (client m))
    = (Some k, None) ->
  let m' := (Connect world m).2 in
  (Connect world m).1 = Returns None /\
  (Disconnect world m').1
    = Returns (foreign <$> connection_Close world (trace m') k) /\
  trace (Disconnect world m').2
    = trace m1 ++ [EvNewConnection conn (ConnectionOptions_ (client m)); EvClose k] /\
  Session (client (Disconnect world m').2) = None /\
  ConnectionFactory (client (Disconnect world m').2) = Some (factory_in_use m).
Proof.
  intros Hnew Hwrap m'. pose proof (Connect_cases world m) as H. cbv zeta in H.
  rewrite Hnew, Hwrap in H.
  pose proof (Connect_same_setup world m) as (Hfield & _).
  rewrite factory_ensured_field in Hfield. fold m' in Hfield.
  assert (Session (client m') =
          Some {| Session_ServerAddress := Client_ServerAddress (client m);
                  Session_Connection := Some k |}) as Hs
    by (subst m'; by rewrite H).
  assert (trace m' = trace m1 ++ [EvNewConnection conn (ConnectionOptions_ (client m))])
    as Htr by (subst m'; by rewrite H).
  pose proof (Disconnect_cases world m') as Hd. rewrite Hs in Hd. simpl in Hd.
  split; [by rewrite H|]. rewrite Hd. simpl. rewrite Htr, <- app_assoc.
  repeat split; done.
Qed.

(** ** More on how the calls compose *)

(** X14: on a client whose Session has a Connection, [Reconnect] closes
    that Connection before anything else; if the close failed it makes no
    other call, and otherwise the calls that follow are those of [Connect],
    at most two. *)
Theorem Reconnect_closes_before_connecting m session k :
  Session (client m) = Some session ->
  Session_Connection session = Some k ->
  exists evs,
    trace (Reconnect world m).2 = trace m ++ EvClose k :: evs /\
    Forall (fun ev => connect_call ev = true) evs /\
    length evs <= 2 /\
    (connection_Close world (trace m) k <> None -> evs = []).
Proof.
  intros Hs Hk. rewrite Reconnect_unfold.
  pose proof (Disconnect_cases world m) as H. rewrite Hs, Hk in H. rewrite H.
  destruct (connection_Close world (trace m) k) as [fe|]; simpl.
  - exists []. split; [done|]. split; [constructor|]. split; [simpl; lia|done].
  - destruct (Connect_effect (with_Session None (recorded (EvClose k) m)))
      as (evs & Htr & Hlen & Hall & _).
    exists evs. rewrite Htr. simpl. rewrite <- app_assoc.
    split; [done|]. split; [exact Hall|]. split; [exact Hlen|done].
Qed.

(** X15: once [Disconnect] has returned, with or without error,
    [SendMessage] and [Listen] answer "No active session" and make no
    call, until a [Connect] succeeds. *)
Theorem after_Disconnect_no_active_session m err m' msg :
  Disconnect world m = (Returns err, m') ->
  SendMessage world msg m' = (Returns (Some no_active_session), m') /\
  Listen world m' = (Returns (Some no_active_session), m').
Proof.
  intros Hd. pose proof (Disconnect_returns_clear world m err m' Hd) as Hs.
  pose proof (SendMessage_cases world msg m') as Hsend.
  pose proof (Listen_cases world m') as Hlisten.
  by rewrite Hs in Hsend, Hlisten.
Qed.

(** X16: a client with no factory of its own and no credential (no
    AuthInfo, or an empty token) connects without panic: [Connect] dials
    the String() of the client's address with the nil header, returns the
    error of the dial if there is one, and otherwise hands the connection
    of the dial and the client's options to [ws.NewConnection]. *)
Theorem Connect_default_without_credential m :
  ConnectionFactory (client m) = None ->
  (AuthInfo (client m) = None \/
   exists ai, AuthInfo (client m) = Some ai /\ authInfos m !! ai = Some "") ->
  let url := ServerAddress_String (Client_ServerAddress (client m)) in
  let opts := ConnectionOptions_ (client m) in
  let m1 := recorded (EvDial url None) (factory_ensured m) in
  Connect world m =
    match dialer_Dial world (trace m) url None with
    | (_, Some fe) => (Returns (Some (foreign fe)), m1)
    | (conn, None) =>
        match ws_NewConnection world (trace m1) conn opts with
        | (_, Some fe) =>
            (Returns (Some (foreign fe)), recorded (EvNewConnection conn opts) m1)
        | (connection, None) =>
            (Returns None,
             with_Session
               (Some {| Session_ServerAddress := Client_ServerAddress (client m);
                        Session_Connection := connection |})
               (recorded (EvNewConnection conn opts) m1))
        end
    end.
Proof.
  intros Hnil Hcred url opts m1.
  pose proof (factory_ensured_rest m) as (_ & _ & _ & _ & Htok & Htr).
  assert (factories (factory_ensured m) !! length (factories m)
          = Some (default_for m)) as Hthis.
  { rewrite (factory_ensured_factories m Hnil).
    rewrite lookup_app_r by done. by rewrite Nat.sub_diag. }
  pose proof (Connect_cases world m) as H. cbv zeta in H.
  unfold factory_in_use in H. rewrite Hnil in H. simpl in H.
  rewrite (New_without_credential world (factory_ensured m) _ _ Hthis) in H.
  2: { destruct Hcred as [Hai | (ai & Hai & Hempty)]; [by left|].
       right. exists ai. split; [exact Hai|]. by rewrite Htok. }
  simpl in H. rewrite Htr in H. fold url m1 in H.
  destruct (dialer_Dial world (trace m) url None) as [conn [fe|]]; simpl in H;
    [exact H|].
  fold opts in H.
  replace (trace m1) with (trace m ++ [EvDial url None])
    by (subst m1; simpl; by rewrite Htr).
  by destruct (ws_NewConnection _ _ _ _) as [connection [fe|]].
Qed.

End Coverage.

(** * The further properties at concrete clients *)

Section CoverageInstances.

Import Sample Scenario.

Lemma SetIAMToken_then_IAMToken_witness :
  authInfos with_token !! 0 = Some "secret" /\
  IAMToken 0 (SetIAMToken 0 "renewed" with_token).2
    = (Returns "renewed", (SetIAMToken 0 "renewed" with_token).2).
Proof.
  split; [reflexivity|].
  exact (proj1 (proj2 (SetIAMToken_then_IAMToken with_token 0 "secret"
                         "renewed" eq_refl))).
Defined.

Lemma default_factory_shares_the_credential_witness :
  authInfos empty_token !! 0 = Some "" /\
  (Connect reachable empty_token).1 = Returns None /\
  Connect reachable
      (SetIAMToken 0 "secret" (Connect reachable empty_token).2).2
    = (Panics nil_map_assignment,
       (SetIAMToken 0 "secret" (Connect reachable empty_token).2).2).
Proof.
  split; [reflexivity|]. split; [reflexivity|].
  refine (proj2 (proj2 (default_factory_shares_the_credential reachable
                          empty_token 0 "secret" eq_refl eq_refl eq_refl _))).
  discriminate.
Defined.

Lemma Disconnect_closes_once_and_clears_witness :
  Session (client connected) = Some live_session /\
  (Disconnect unreachable connected).1
    = Returns (Some (foreign (foreign_error 9))) /\
  Session (client (Disconnect unreachable connected).2) = None.
Proof.
  split; [reflexivity|].
  pose proof (Disconnect_closes_once_and_clears unreachable connected
                live_session (connection_handle 5) eq_refl eq_refl)
    as (Herr & _ & Hs & _).
  split; [exact Herr | exact Hs].
Defined.

Lemma client_calls_never_write_credentials_witness :
  Forall (fun o => client_call o = true) session_of_work /\
  authInfos (after_all reachable session_of_work with_token) = ["secret"].
Proof.
  assert (Forall (fun o => client_call o = true) session_of_work) as Hall
    by (repeat constructor).
  split; [exact Hall|].
  exact (client_calls_never_write_credentials reachable session_of_work
           with_token Hall).
Defined.

Lemma calls_keep_session_at_client_address_witness :
  session_at_client_address connected /\
  session_at_client_address (after_all reachable session_of_work connected).
Proof.
  assert (session_at_client_address connected) as Hinv
    by (intros session [= <-]; reflexivity).
  split; [exact Hinv|].
  exact (calls_keep_session_at_client_address reachable session_of_work
           connected Hinv).
Defined.

Lemma Connect_with_supplied_factory_witness :
  ConnectionFactory (client connected) = Some (supplied_factory 4) /\
  exists err, (Connect unreachable connected).1 = Returns err.
Proof.
  split; [reflexivity|].
  exact (proj1 (Connect_with_supplied_factory unreachable connected 4 eq_refl)).
Defined.

Lemma Connect_then_Disconnect_witness :
  (Connect reachable anonymous).1 = Returns None /\
  Session (client (Disconnect reachable (Connect reachable anonymous).2).2) = None /\
  trace (Disconnect reachable (Connect reachable anonymous).2).2
    = [EvDial "wss://example.test/ingest" None;
       EvNewConnection (conn_handle 1) (connection_options 0);
       EvClose (connection_handle 3)].
Proof.
  pose proof (Connect_then_Disconnect reachable anonymous (conn_handle 1) _
                (connection_handle 3) eq_refl eq_refl)
    as (Hconnect & _ & Htrace & Hs & _).
  split; [exact Hconnect|]. split; [exact Hs | exact Htrace].
Defined.

Lemma Reconnect_closes_before_connecting_witness :
  Session (client connected) = Some live_session /\
  trace (Reconnect reachable connected).2
    = [EvClose (connection_handle 5); EvFactoryNew 4;
       EvNewConnection (conn_handle 2) (connection_options 0)] /\
  exists evs,
    trace (Reconnect unreachable connected).2
      = trace connected ++ EvClose (connection_handle 5) :: evs /\
    evs = [].
Proof.
  split; [reflexivity|]. split; [reflexivity|].
  destruct (Reconnect_closes_before_connecting unreachable connected
              live_session (connection_handle 5) eq_refl eq_refl)
    as (evs & Htrace & _ & _ & Hnone).
  exists evs. split; [exact Htrace|]. apply Hnone. discriminate.
Defined.

Lemma after_Disconnect_no_active_session_witness :
  Disconnect unreachable connected
    = (Returns (Some (foreign (foreign_error 9))),
       with_Session None (recorded (EvClose (connection_handle 5)) connected)) /\
  SendMessage unreachable (encodable 1)
      (with_Session None (recorded (EvClose (connection_handle 5)) connected))
    = (Returns (Some no_active_session),
       with_Session None (recorded (EvClose (connection_handle 5)) connected)).
Proof.
  split; [reflexivity|].
  exact (proj1 (after_Disconnect_no_active_session unreachable connected
                  _ _ (encodable 1) eq_refl)).
Defined.

Lemma Connect_default_without_credential_witness :
  authInfos empty_token !! 0 = Some "" /\
  Connect unreachable empty_token
    = (Returns (Some (foreign (foreign_error 7))),
       recorded (EvDial "wss://example.test/ingest" None)
         (factory_ensured empty_token)).
Proof.
  split; [reflexivity|].
  refine (Connect_default_without_credential unreachable empty_token eq_refl _).
  right. exists 0. split; reflexivity.
Defined.

End CoverageInstances.
